(** * FSM.cpp: an interactive finite-state machine walker

    A shallow embedding of [hw1/FSMDesign/FSM.cpp] and the properties of its
    executor loop.  The program reads the number of states and transitions,
    the transition table (two parallel arrays) and a starting state from
    [cin]; it then loops for ever, asking for a next state and scanning the
    table for the first entry that leaves the current state. *)

From stdpp Require Import base numbers list strings.
From Stdlib Require Import ZArith Lia Ascii.

Local Open Scope Z_scope.

(** ** The fragment of C++ the program uses *)

Module Cxx.

(** [int] is 32 bits wide and [size_t] 64 bits wide (LP64).  Values of both
    types are carried as [Z]; the conversions and the increment of a
    [size_t] are written with their reduction. *)
Definition INT_MAX : Z := 2 ^ 31 - 1.

(** Conversion of an [int] operand to [size_t], as in [i < n_transitions]. *)
Definition size_t_of_int (z : Z) : Z := z mod 2 ^ 64.

(** Conversion of a [size_t] to [int], as in [states[i] = i]. *)
Definition int_of_size_t (z : Z) : Z := (z + 2 ^ 31) mod 2 ^ 32 - 2 ^ 31.

(** [i + 1] and [i++] on a [size_t]. *)
Definition size_t_succ (i : Z) : Z := (i + 1) mod 2 ^ 64.

(** Results of running a piece of code: it finishes, the model ran out of
    fuel, or the behaviour is undefined (negative array bound, access out
    of bounds, read of an indeterminate value). *)
Inductive result (A : Type) : Type :=
| Done (a : A)
| OutOfFuel
| Undefined.
Arguments Done {A} a.
Arguments OutOfFuel {A}.
Arguments Undefined {A}.

#[export] Instance result_bind : MBind result := fun A B k r =>
  match r with
  | Done a => k a
  | OutOfFuel => OutOfFuel
  | Undefined => Undefined
  end.

(** How the body of a loop hands control back: it falls through to the
    next iteration, or it executes [break]. *)
Inductive ctl : Type := Next | Break.

(** [a && b]: [b] is evaluated only when [a] is true. *)
Definition and_then (a b : result bool) : result bool :=
  x ← a; if x : bool then b else Done false.

(** An array of [int]: a cell is [None] while its value is indeterminate. *)
Abbreviation array := (list (option Z)).

(** [int a[n];] *)
Definition new_array (n : Z) : result array :=
  if n <? 0 then Undefined else Done (replicate (Z.to_nat n) None).

(** [a[i]] as an rvalue. *)
Definition array_get (a : array) (i : Z) : result Z :=
  if i <? 0 then Undefined
  else match a !! Z.to_nat i with
       | Some (Some v) => Done v
       | _ => Undefined
       end.

(** [a[i] = v] *)
Definition array_set (a : array) (i v : Z) : result array :=
  if (i <? 0) || (Z.of_nat (length a) <=? i) then Undefined
  else Done (<[Z.to_nat i := Some v]> a).

(** [for (size_t i = i0; i < bound; i++) body], on a state of type [St].
    The bound is a variable of type [int], read again at every test. *)
Fixpoint for_loop {St : Type} (fuel : nat) (bound : St -> Z)
    (body : Z -> St -> result (ctl * St)) (i : Z) (s : St) : result St :=
  match fuel with
  | O => OutOfFuel
  | S fuel' =>
      if i <? size_t_of_int (bound s) then
        '(c, s') ← body i s;
        match c with
        | Break => Done s'
        | Next => for_loop fuel' bound body (size_t_succ i) s'
        end
      else Done s
  end.

(** The first [n] iterations of [while (true) body]: [Done (Next, s)] when
    the loop is still running after them, in state [s]; [Done (Break, s)]
    when it has been left. *)
Fixpoint while_true {St : Type} (n : nat)
    (body : St -> result (ctl * St)) (s : St) : result (ctl * St) :=
  match n with
  | O => Done (Next, s)
  | S n' =>
      '(c, s') ← body s;
      match c with
      | Break => Done (Break, s')
      | Next => while_true n' body s'
      end
  end.

(** Console: what [cin] will still deliver, and what has happened so far.
    Extraction of an [int] is taken to succeed. *)
Inductive token : Type :=
| Str (s : string)
| Num (z : Z).

Inductive event : Type :=
| Write (t : token)
| Read (z : Z).

Record io : Type := Io { cin : nat -> Z; trace : list event }.

(** [cout << t] *)
Definition put (t : token) (w : io) : io :=
  {| cin := cin w; trace := trace w ++ [Write t] |}.

(** [cin >> x] *)
Definition get (w : io) : Z * io :=
  (cin w 0%nat, {| cin := fun k => cin w (S k); trace := trace w ++ [Read (cin w 0%nat)] |}).

End Cxx.

Export Cxx.

(** ** The program *)

Module FSM.

Definition nl : string := String "010"%char "".

Definition msg_illegal : string :=
  "illegal transition, not defined in transitions table" +:+ nl.
Definition msg_successful : string := "transition successful" +:+ nl.

(** The local variables of [main] once all of them are initialised, and
    the console. *)
Record frame : Type := Frame {
  n_states : Z;
  n_transitions : Z;
  states : array;
  transitions_head : array;
  transitions_tail : array;
  current_state : Z;
  console : io
}.

Definition cout (t : token) (f : frame) : frame :=
  {| n_states := n_states f; n_transitions := n_transitions f;
     states := states f; transitions_head := transitions_head f;
     transitions_tail := transitions_tail f;
     current_state := current_state f; console := put t (console f) |}.

Definition cin_int (f : frame) : Z * frame :=
  let '(z, w) := get (console f) in
  (z, {| n_states := n_states f; n_transitions := n_transitions f;
         states := states f; transitions_head := transitions_head f;
         transitions_tail := transitions_tail f;
         current_state := current_state f; console := w |}).

Definition set_current_state (v : Z) (f : frame) : frame :=
  {| n_states := n_states f; n_transitions := n_transitions f;
     states := states f; transitions_head := transitions_head f;
     transitions_tail := transitions_tail f;
     current_state := v; console := console f |}.

(** Lines 43-53: the body of the scan over the table. *)
Definition scan_body (next_state : Z) (i : Z) (f : frame) : result (ctl * frame) :=
  c1 ← and_then
          (h ← array_get (transitions_head f) i; Done (h =? current_state f))
          (t ← array_get (transitions_tail f) i; Done (negb (t =? next_state)));
  if c1 : bool then
    Done (Break, cout (Str msg_illegal) f)
  else
    c2 ← and_then
            (h ← array_get (transitions_head f) i; Done (h =? current_state f))
            (t ← array_get (transitions_tail f) i; Done (t =? next_state));
    if c2 : bool then
      let f := cout (Str msg_successful) f in
      let f := set_current_state next_state f in
      Done (Break, f)
    else Done (Next, f).

(** Fuel for a loop that counts from [0] up to [bound]. *)
Definition fuel_for (bound : Z) : nat := S (Z.to_nat bound).

(** Lines 41-54. *)
Definition scan (next_state : Z) (f : frame) : result frame :=
  for_loop (fuel_for (n_transitions f)) n_transitions (scan_body next_state) 0 f.

(** Lines 34-54: the body of [while (true)]. *)
Definition loop_body (f : frame) : result (ctl * frame) :=
  let f := cout (Str "current state: ") f in
  let f := cout (Num (current_state f)) f in
  let f := cout (Str nl) f in
  let f := cout (Str "next state: ") f in
  let '(next_state, f) := cin_int f in
  f ← scan next_state f;
  Done (Next, f).

(** Lines 32-55: the first [n] iterations of the executor loop. *)
Definition executor (n : nat) (f : frame) : result (ctl * frame) :=
  while_true n loop_body f.

(** Lines 16-19: the body of the loop that fills [states]. *)
Definition init_states_body (i : Z) (states : array) : result (ctl * array) :=
  states ← array_set states i (int_of_size_t i);
  Done (Next, states).

(** Lines 21-25: the body of the loop that reads the table.  Its state is
    the two arrays and the console. *)
Definition read_transition_body (i : Z) (s : array * array * io)
    : result (ctl * (array * array * io)) :=
  let '(transitions_head, transitions_tail, w) := s in
  let w := put (Str "transition number ") w in
  let w := put (Num (size_t_succ i)) w in
  let w := put (Str " : ") w in
  let '(h, w) := get w in
  transitions_head ← array_set transitions_head i h;
  let '(t, w) := get w in
  transitions_tail ← array_set transitions_tail i t;
  Done (Next, (transitions_head, transitions_tail, w)).

(** Lines 7-29: everything before the executor loop. *)
Definition definition_phase (w : io) : result frame :=
  let w := put (Str "number of state and transitions: ") w in
  let '(n_states, w) := get w in
  let '(n_transitions, w) := get w in
  states ← new_array n_states;
  transitions_head ← new_array n_transitions;
  transitions_tail ← new_array n_transitions;
  states ← for_loop (fuel_for n_states) (fun _ => n_states)
             init_states_body 0 states;
  '(transitions_head, transitions_tail, w) ←
    for_loop (fuel_for n_transitions) (fun _ => n_transitions)
      read_transition_body 0 (transitions_head, transitions_tail, w);
  let w := put (Str "starting state: ") w in
  let '(current_state, w) := get w in
  Done {| n_states := n_states; n_transitions := n_transitions;
          states := states; transitions_head := transitions_head;
          transitions_tail := transitions_tail;
          current_state := current_state; console := w |}.

(** [main], cut after the first [n] iterations of its loop, on the input
    [input] typed at the console. *)
Definition main (n : nat) (input : nat -> Z) : result (ctl * frame) :=
  f ← definition_phase {| cin := input; trace := [] |};
  executor n f.

(** What the program has written so far. *)
Definition written (f : frame) : list token :=
  omap (fun e => match e with Write t => Some t | Read _ => None end)
       (trace (console f)).

(** An input given by its first values, followed by zeros. *)
Definition typed (l : list Z) : nat -> Z := fun k => default 0 (l !! k).

(** *** Vocabulary of the statements *)

(** An array of [n] cells, all of them written. *)
Definition filled (a : array) (n : Z) : Prop :=
  Z.of_nat (length a) = n /\ Forall is_Some a.

(** The table of a frame is in place: both arrays were declared with
    [n_transitions] cells and every cell has been read in. *)
Record loaded (f : frame) : Prop := Loaded {
  loaded_range : 0 <= n_transitions f <= INT_MAX;
  loaded_head : filled (transitions_head f) (n_transitions f);
  loaded_tail : filled (transitions_tail f) (n_transitions f)
}.

(** The sizes typed first are sizes of arrays of [int]. *)
Definition valid_sizes (input : nat -> Z) : Prop :=
  0 <= input 0%nat <= INT_MAX /\ 0 <= input 1%nat <= INT_MAX.

(** The three ways an iteration can end. *)
Inductive outcome : Type := Successful | Illegal | Silent.

(** What an iteration writes after its prompt. *)
Definition message (o : outcome) : list event :=
  match o with
  | Successful => [Write (Str msg_successful)]
  | Illegal => [Write (Str msg_illegal)]
  | Silent => []
  end.

(** What every iteration writes and reads before the scan. *)
Definition prompt (current next : Z) : list event :=
  [Write (Str "current state: "); Write (Num current); Write (Str nl);
   Write (Str "next state: "); Read next].

(** The value an iteration started in [f] will read. *)
Definition requested (f : frame) : Z := cin (console f) 0%nat.

(** The frame an iteration started in [f] has built when its scan begins. *)
Definition prompted (f : frame) : frame :=
  (cin_int (cout (Str "next state: ") (cout (Str nl)
     (cout (Num (current_state f)) (cout (Str "current state: ") f))))).2.

(** The decision of the scan, read off the two arrays as lists: the first
    entry whose head is [current] decides. *)
Fixpoint first_from (current next : Z) (heads tails : array) : outcome :=
  match heads, tails with
  | Some h :: heads', Some t :: tails' =>
      if h =? current then (if t =? next then Successful else Illegal)
      else first_from current next heads' tails'
  | _, _ => Silent
  end.

(** The effect of a decision on the frame. *)
Definition finish (o : outcome) (next : Z) (f : frame) : frame :=
  match o with
  | Successful => set_current_state next (cout (Str msg_successful) f)
  | Illegal => cout (Str msg_illegal) f
  | Silent => f
  end.

(** The decision of the iteration started in [f], and the frame it
    leaves. *)
Definition decision (f : frame) : outcome :=
  first_from (current_state f) (requested f)
    (transitions_head f) (transitions_tail f).

Definition next_frame (f : frame) : frame :=
  finish (decision f) (requested f) (prompted f).

Fixpoint after (n : nat) (f : frame) : frame :=
  match n with
  | O => f
  | S n' => after n' (next_frame f)
  end.

(** [current_state] names one of the states [0 .. n_states - 1]. *)
Definition valid_state (f : frame) : Prop :=
  0 <= current_state f < n_states f.

(** What reading row [k] of the table, and its first [i] rows, leave in the
    trace, when [c] is what [cin] held before the first row. *)
Definition row_events (c : nat -> Z) (k : nat) : list event :=
  [Write (Str "transition number "); Write (Num (Z.of_nat k + 1));
   Write (Str " : "); Read (c (2 * k)%nat); Read (c (2 * k + 1)%nat)].

Definition table_events (c : nat -> Z) (i : nat) : list event :=
  flat_map (row_events c) (seq 0 i).

(** What has been written between the frame [f] and the later frame [f']. *)
Definition printed (f f' : frame) : list token :=
  omap (fun e => match e with Write t => Some t | Read _ => None end)
       (drop (length (trace (console f))) (trace (console f'))).

(** *** Sample frames *)

(** Two entries leave state 0; the user asks for the second one's target. *)
Definition two_ways_out : frame :=
  {| n_states := 3; n_transitions := 2; states := [Some 0; Some 1; Some 2];
     transitions_head := [Some 0; Some 0];
     transitions_tail := [Some 1; Some 2];
     current_state := 0;
     console := {| cin := typed [2]; trace := [] |} |}.

(** The table (0,1), (1,2) of three states, with the machine in state
    [current] and the user asking for [next]. *)
Definition chain (current next : Z) : frame :=
  {| n_states := 3; n_transitions := 2; states := [Some 0; Some 1; Some 2];
     transitions_head := [Some 0; Some 1];
     transitions_tail := [Some 1; Some 2];
     current_state := current;
     console := {| cin := typed [next]; trace := [] |} |}.

(** What the definition phase leaves when [c] is what [cin] held and [tr]
    the trace at its start. *)
Record defined_by (c : nat -> Z) (tr : list event) (f : frame) : Prop := DefinedBy {
  db_states : n_states f = c 0%nat;
  db_transitions : n_transitions f = c 1%nat;
  db_table : forall k, (k < Z.to_nat (c 1%nat))%nat ->
    transitions_head f !! k = Some (Some (c (2 + 2 * k)%nat)) /\
    transitions_tail f !! k = Some (Some (c (2 + (2 * k + 1))%nat));
  db_current : current_state f = c (2 + 2 * Z.to_nat (c 1%nat))%nat;
  db_cin : forall k,
    cin (console f) k = c (S (2 + 2 * Z.to_nat (c 1%nat) + k))%nat;
  db_trace : trace (console f) =
    tr ++ [Write (Str "number of state and transitions: ");
           Read (c 0%nat); Read (c 1%nat)]
       ++ table_events (fun k => c (2 + k)%nat) (Z.to_nat (c 1%nat))
       ++ [Write (Str "starting state: ");
           Read (c (2 + 2 * Z.to_nat (c 1%nat))%nat)]
}.

(** Two frames that agree on everything the executor loop reads or writes:
    they may differ in [n_states], in [states] and in the values read
    before. *)
Record same_session (f1 f2 : frame) : Prop := SameSession {
  ss_transitions : n_transitions f1 = n_transitions f2;
  ss_head : transitions_head f1 = transitions_head f2;
  ss_tail : transitions_tail f1 = transitions_tail f2;
  ss_current : current_state f1 = current_state f2;
  ss_cin : forall k, cin (console f1) k = cin (console f2) k;
  ss_written : written f1 = written f2
}.


(** No two entries of the table leave the same state. *)
Definition deterministic (f : frame) : Prop :=
  forall i j h,
    transitions_head f !! i = Some (Some h) ->
    transitions_head f !! j = Some (Some h) ->
    i = j.

(** What an iteration writes before it reads. *)
Definition prompt_text (current : Z) : list token :=
  [Str "current state: "; Num current; Str nl; Str "next state: "].





(** The table (0,1), (1,2) followed by a second entry (0,2) leaving state 0. *)
Definition chain_shadowed (current next : Z) : frame :=
  {| n_states := 3; n_transitions := 3; states := [Some 0; Some 1; Some 2];
     transitions_head := [Some 0; Some 1; Some 0];
     transitions_tail := [Some 1; Some 2; Some 2];
     current_state := current;
     console := {| cin := typed [next]; trace := [] |} |}.

End FSM.

Import FSM.

(** ** Facts about the C++ fragment *)

Section Loops.

Lemma size_t_of_int_nonneg (n : Z) :
  0 <= n <= INT_MAX -> size_t_of_int n = n.
Proof.
  unfold size_t_of_int, INT_MAX. intros H. apply Z.mod_small. lia.
Qed.

Lemma size_t_succ_small (i : Z) :
  0 <= i < INT_MAX -> size_t_succ i = i + 1.
Proof.
  unfold size_t_succ, INT_MAX. intros H. apply Z.mod_small. lia.
Qed.

Lemma int_of_size_t_small (i : Z) :
  0 <= i <= INT_MAX -> int_of_size_t i = i.
Proof.
  unfold int_of_size_t, INT_MAX. intros H.
  rewrite Z.mod_small by lia. lia.
Qed.

Context {St : Type} (bound : St -> Z) (body : Z -> St -> result (ctl * St)).

(** Fuel only bounds the number of turns: a loop that finishes finishes the
    same way with more of it. *)
Lemma for_loop_more_fuel (fuel : nat) : forall (fuel' : nat) (i : Z) (s s' : St),
  (fuel <= fuel')%nat ->
  for_loop fuel bound body i s = Done s' ->
  for_loop fuel' bound body i s = Done s'.
Proof.
  induction fuel as [|fuel IH]; intros fuel' i s s' Hle Hrun; [discriminate|].
  destruct fuel' as [|fuel']; [lia|]. cbn [for_loop] in *.
  destruct (i <? size_t_of_int (bound s)); [|exact Hrun].
  destruct (body i s) as [[c s1]| |]; cbn in *; try discriminate.
  destruct c; [|exact Hrun]. apply (IH fuel'); [lia|exact Hrun].
Qed.

Context (n : Z) (Inv : Z -> St -> Prop) (Post : St -> Prop).
Hypothesis n_range : 0 <= n <= INT_MAX.
Hypothesis bound_is_n : forall i s, 0 <= i <= n -> Inv i s -> bound s = n.
Hypothesis body_step : forall i s, 0 <= i < n -> Inv i s ->
  exists c s', body i s = Done (c, s') /\
    match c with Next => Inv (i + 1) s' | Break => Post s' end.
Hypothesis at_exit : forall s, Inv n s -> Post s.

(** A counting loop whose body keeps [Inv] or breaks into [Post]
    finishes, in [Post], once it has fuel for the remaining indices. *)
Lemma for_loop_rule (fuel : nat) : forall i s,
  0 <= i <= n -> (Z.to_nat (n - i) < fuel)%nat -> Inv i s ->
  exists s', for_loop fuel bound body i s = Done s' /\ Post s'.
Proof.
  induction fuel as [|fuel IH]; intros i s Hi Hfuel HI; [lia|].
  cbn [for_loop].
  rewrite (bound_is_n i s Hi HI), (size_t_of_int_nonneg n n_range).
  destruct (Z.ltb_spec i n) as [Hlt|Hge].
  - destruct (body_step i s (conj (proj1 Hi) Hlt) HI) as (c & s' & -> & Hc).
    cbn. destruct c.
    + rewrite size_t_succ_small by (unfold INT_MAX in *; lia).
      apply IH; [lia|lia|exact Hc].
    + eauto.
  - assert (i = n) as -> by lia. eauto.
Qed.

End Loops.

(** ** The scan over the table *)

Section Scan.

Lemma filled_lookup (a : array) (n i : Z) :
  filled a n -> 0 <= i < n -> exists v, a !! Z.to_nat i = Some (Some v).
Proof.
  intros [Hlen Hall] Hi.
  destruct (lookup_lt_is_Some_2 a (Z.to_nat i)) as [c Hc]; [lia|].
  destruct (proj1 (Forall_lookup _ a) Hall _ _ Hc) as [v ->]. eauto.
Qed.

Lemma array_get_Some (a : array) (i v : Z) :
  0 <= i -> a !! Z.to_nat i = Some (Some v) -> array_get a i = Done v.
Proof.
  intros Hi Hv. unfold array_get.
  destruct (Z.ltb_spec i 0); [lia|]. now rewrite Hv.
Qed.

(** One turn of the scan, once the two cells it looks at are known. *)
Lemma scan_body_eq (next i h t : Z) (f : frame) :
  0 <= i ->
  transitions_head f !! Z.to_nat i = Some (Some h) ->
  transitions_tail f !! Z.to_nat i = Some (Some t) ->
  scan_body next i f =
    if h =? current_state f
    then Done (Break, finish (if t =? next then Successful else Illegal) next f)
    else Done (Next, f).
Proof.
  intros Hi Hh Ht. unfold scan_body, and_then.
  rewrite (array_get_Some _ _ _ Hi Hh), (array_get_Some _ _ _ Hi Ht). cbn.
  destruct (h =? current_state f); cbn; [|reflexivity].
  destruct (t =? next); reflexivity.
Qed.

Lemma first_from_drop (current next h t : Z) (heads tails : array) (k : nat) :
  heads !! k = Some (Some h) -> tails !! k = Some (Some t) ->
  first_from current next (drop k heads) (drop k tails) =
    if h =? current then (if t =? next then Successful else Illegal)
    else first_from current next (drop (S k) heads) (drop (S k) tails).
Proof.
  intros Hh Ht. now rewrite (drop_S _ _ _ Hh), (drop_S _ _ _ Ht).
Qed.

(** The scan terminates, and it does what the first entry leaving the
    current state decides. *)
Lemma scan_eq (next : Z) (f : frame) :
  loaded f ->
  scan next f =
    Done (finish (first_from (current_state f) next
                    (transitions_head f) (transitions_tail f)) next f).
Proof.
  intros [Hrange Hhead Htail].
  set (o := first_from _ _ _ _).
  destruct (for_loop_rule n_transitions (scan_body next) (n_transitions f)
    (fun i s => s = f /\
       first_from (current_state f) next
         (drop (Z.to_nat i) (transitions_head f))
         (drop (Z.to_nat i) (transitions_tail f)) = o)
    (fun s => s = finish o next f) Hrange) with
    (fuel := fuel_for (n_transitions f)) (i := 0) (s := f)
    as (s' & Hrun & ->).
  - now intros i s _ [-> _].
  - intros i s Hi [-> Hdec].
    destruct (filled_lookup _ _ _ Hhead Hi) as [h Hh].
    destruct (filled_lookup _ _ _ Htail Hi) as [t Ht].
    rewrite (scan_body_eq next i h t f (proj1 Hi) Hh Ht).
    rewrite (first_from_drop _ _ _ _ _ _ _ Hh Ht) in Hdec.
    destruct (h =? current_state f).
    + exists Break, (finish o next f). now rewrite Hdec.
    + exists Next, f. repeat split.
      now replace (Z.to_nat (i + 1)) with (S (Z.to_nat i)) by lia.
  - intros s [-> Hdec]. destruct Hhead as [Hlen _].
    rewrite drop_ge in Hdec by lia. now rewrite <- Hdec.
  - lia.
  - unfold fuel_for. lia.
  - now split.
  - exact Hrun.
Qed.

End Scan.

(** ** One iteration of the executor loop *)

Section Iteration.

Lemma finish_frame (o : outcome) (next : Z) (f : frame) :
  n_states (finish o next f) = n_states f /\
  n_transitions (finish o next f) = n_transitions f /\
  states (finish o next f) = states f /\
  transitions_head (finish o next f) = transitions_head f /\
  transitions_tail (finish o next f) = transitions_tail f /\
  cin (console (finish o next f)) = cin (console f) /\
  trace (console (finish o next f)) = trace (console f) ++ message o /\
  current_state (finish o next f) =
    match o with Successful => next | _ => current_state f end.
Proof. destruct o; cbn; rewrite ?app_nil_r; repeat split. Qed.

Lemma prompted_frame (f : frame) :
  n_states (prompted f) = n_states f /\
  n_transitions (prompted f) = n_transitions f /\
  states (prompted f) = states f /\
  transitions_head (prompted f) = transitions_head f /\
  transitions_tail (prompted f) = transitions_tail f /\
  cin (console (prompted f)) = (fun k => cin (console f) (S k)) /\
  trace (console (prompted f)) =
    trace (console f) ++ prompt (current_state f) (requested f) /\
  current_state (prompted f) = current_state f.
Proof.
  unfold prompted, prompt, requested. cbn.
  rewrite <- !app_assoc. repeat split.
Qed.

(** What an iteration leaves of the frame it started in. *)
Lemma next_frame_frame (f : frame) :
  n_states (next_frame f) = n_states f /\
  n_transitions (next_frame f) = n_transitions f /\
  states (next_frame f) = states f /\
  transitions_head (next_frame f) = transitions_head f /\
  transitions_tail (next_frame f) = transitions_tail f /\
  cin (console (next_frame f)) = (fun k => cin (console f) (S k)) /\
  trace (console (next_frame f)) =
    trace (console f) ++ prompt (current_state f) (requested f)
      ++ message (decision f) /\
  current_state (next_frame f) =
    match decision f with Successful => requested f | _ => current_state f end.
Proof.
  unfold next_frame.
  destruct (finish_frame (decision f) (requested f) (prompted f))
    as (-> & -> & -> & -> & -> & -> & -> & ->).
  destruct (prompted_frame f) as (-> & -> & -> & -> & -> & -> & -> & ->).
  rewrite <- app_assoc. repeat split.
Qed.

Lemma loaded_prompted (f : frame) : loaded f -> loaded (prompted f).
Proof.
  intros [? ? ?].
  destruct (prompted_frame f) as (_ & En & _ & Eh & Et & _).
  split; rewrite ?En, ?Eh, ?Et; assumption.
Qed.

Lemma loaded_next_frame (f : frame) : loaded f -> loaded (next_frame f).
Proof.
  intros [? ? ?].
  destruct (next_frame_frame f) as (_ & En & _ & Eh & Et & _).
  split; rewrite ?En, ?Eh, ?Et; assumption.
Qed.

(** An iteration finishes, falls through to the next one, and leaves
    [next_frame]. *)
Lemma loop_body_eq (f : frame) :
  loaded f -> loop_body f = Done (Next, next_frame f).
Proof.
  intros Hf. unfold loop_body.
  change (cin_int _) with (requested f, prompted f). cbv iota beta.
  rewrite (scan_eq _ _ (loaded_prompted f Hf)).
  destruct (prompted_frame f) as (_ & _ & _ & -> & -> & _ & _ & ->).
  reflexivity.
Qed.

Lemma executor_eq (n : nat) : forall f,
  loaded f -> executor n f = Done (Next, after n f) /\ loaded (after n f).
Proof.
  induction n as [|n IH]; intros f Hf; [now split|].
  unfold executor in *. cbn [while_true after].
  rewrite (loop_body_eq f Hf). cbn.
  apply IH, loaded_next_frame, Hf.
Qed.

Lemma after_S (n : nat) : forall f,
  after (S n) f = next_frame (after n f).
Proof.
  induction n as [|n IH]; intros f; [reflexivity|].
  change (after (S (S n)) f) with (after (S n) (next_frame f)).
  now rewrite IH.
Qed.

End Iteration.

(** ** The decision, in terms of the cells of the table *)

Section Decision.

Lemma first_from_first (current next t : Z) : forall (j : nat) (heads tails : array),
  Forall is_Some heads -> Forall is_Some tails ->
  heads !! j = Some (Some current) ->
  (forall k, (k < j)%nat -> heads !! k <> Some (Some current)) ->
  tails !! j = Some (Some t) ->
  first_from current next heads tails =
    if t =? next then Successful else Illegal.
Proof.
  induction j as [|j IH]; intros heads tails Hh Ht Hj Hfirst Htj.
  - destruct heads as [|c heads], tails as [|d tails]; try discriminate.
    injection Hj as ->. injection Htj as ->. cbn.
    now rewrite Z.eqb_refl.
  - destruct heads as [|c heads], tails as [|d tails]; try discriminate.
    inversion Hh as [|? ? [h ->] Hh']; subst.
    inversion Ht as [|? ? [t' ->] Ht']; subst.
    cbn. destruct (Z.eqb_spec h current) as [->|_].
    + now destruct (Hfirst 0%nat (Nat.lt_0_succ j)).
    + apply IH; try assumption.
      intros k Hk. apply (Hfirst (S k)). lia.
Qed.

Lemma first_from_none (current next : Z) : forall heads tails : array,
  (forall j, heads !! j <> Some (Some current)) ->
  first_from current next heads tails = Silent.
Proof.
  induction heads as [|c heads IH]; intros tails Hnone; [reflexivity|].
  destruct c as [h|]; [|reflexivity].
  destruct tails as [|[t|] tails]; try reflexivity.
  cbn. destruct (Z.eqb_spec h current) as [->|_].
  - now destruct (Hnone 0%nat).
  - apply IH. intros j. apply (Hnone (S j)).
Qed.

Lemma first_from_Successful (current next : Z) : forall heads tails : array,
  first_from current next heads tails = Successful ->
  exists k, heads !! k = Some (Some current) /\ tails !! k = Some (Some next).
Proof.
  induction heads as [|c heads IH]; intros tails H; [discriminate|].
  destruct c as [h|]; [|discriminate].
  destruct tails as [|[t|] tails]; try discriminate.
  cbn in H. destruct (Z.eqb_spec h current) as [->|_].
  - destruct (Z.eqb_spec t next) as [->|_]; [|discriminate].
    now exists 0%nat.
  - destruct (IH _ H) as (k & ? & ?). now exists (S k).
Qed.

End Decision.

(** ** What an iteration prints, and the sample frames *)

Section Printed.

Lemma printed_next_frame (f : frame) :
  printed f (next_frame f) =
    [Str "current state: "; Num (current_state f); Str nl; Str "next state: "]
    ++ match decision f with
       | Successful => [Str msg_successful]
       | Illegal => [Str msg_illegal]
       | Silent => []
       end.
Proof.
  unfold printed.
  destruct (next_frame_frame f) as (_ & _ & _ & _ & _ & _ & -> & _).
  rewrite drop_app_length. now destruct (decision f).
Qed.

Ltac not_printed H :=
  repeat (apply elem_of_cons in H as [H|H];
          [try discriminate H; vm_compute in H; discriminate H|]);
  inversion H.

Lemma printed_successful (f : frame) :
  Str msg_successful ∈ printed f (next_frame f) <-> decision f = Successful.
Proof.
  rewrite printed_next_frame. split.
  - intros H. destruct (decision f); [reflexivity| |]; cbn in H; not_printed H.
  - intros ->. cbn. do 4 right. left.
Qed.

Lemma printed_illegal (f : frame) :
  Str msg_illegal ∈ printed f (next_frame f) <-> decision f = Illegal.
Proof.
  rewrite printed_next_frame. split.
  - intros H. destruct (decision f); [|reflexivity|]; cbn in H; not_printed H.
  - intros ->. cbn. do 4 right. left.
Qed.

Lemma loaded_two_ways_out : loaded two_ways_out.
Proof.
  split; [cbv; split; discriminate| |];
    (split; [reflexivity | repeat constructor; eexists; reflexivity]).
Qed.

Lemma loaded_chain (current next : Z) : loaded (chain current next).
Proof.
  split; [cbv; split; discriminate| |];
    (split; [reflexivity | repeat constructor; eexists; reflexivity]).
Qed.

End Printed.

(** ** Properties of the executor loop *)

(** C1. The scan goes through the table in stored order and the first entry
    whose head is the current state decides alone: when its tail differs
    from the requested state the iteration reports the illegal transition and
    keeps the current state, whatever the entries behind it hold (a later
    entry from the current state to the requested state is not reached);
    when its tail is the requested state the transition is made. *)
Theorem first_entry_from_current_decides (f : frame) (j : nat) (t : Z) :
  loaded f ->
  transitions_head f !! j = Some (Some (current_state f)) ->
  (forall k, (k < j)%nat ->
     transitions_head f !! k <> Some (Some (current_state f))) ->
  transitions_tail f !! j = Some (Some t) ->
  exists f', loop_body f = Done (Next, f') /\
    (t <> requested f ->
       trace (console f') =
         trace (console f) ++ prompt (current_state f) (requested f)
           ++ [Write (Str msg_illegal)] /\
       current_state f' = current_state f) /\
    (t = requested f ->
       trace (console f') =
         trace (console f) ++ prompt (current_state f) (requested f)
           ++ [Write (Str msg_successful)] /\
       current_state f' = requested f).
Proof.
  intros Hf Hj Hfirst Ht.
  exists (next_frame f). split; [apply loop_body_eq, Hf|].
  destruct (next_frame_frame f) as (_ & _ & _ & _ & _ & _ & -> & ->).
  unfold decision.
  rewrite (first_from_first _ (requested f) t j _ _
             (proj2 (loaded_head f Hf)) (proj2 (loaded_tail f Hf)) Hj Hfirst Ht).
  destruct (Z.eqb_spec t (requested f)) as [E|E]; split; intros E'; try easy.
Qed.

Lemma first_entry_from_current_decides_witness :
  exists f', loop_body two_ways_out = Done (Next, f') /\
    trace (console f') =
      prompt 0 2 ++ [Write (Str msg_illegal)] /\
    current_state f' = 0.
Proof.
  destruct (first_entry_from_current_decides two_ways_out 0 1)
    as (f' & Hrun & Hill & _).
  - exact loaded_two_ways_out.
  - reflexivity.
  - intros k Hk. lia.
  - reflexivity.
  - exists f'. split; [exact Hrun|]. apply Hill. vm_compute. discriminate.
Defined.

(** C2. An iteration that reports "transition successful" ends with
    [current_state] equal to the state that was requested. *)
Theorem successful_sets_requested (f : frame) :
  loaded f ->
  exists f', loop_body f = Done (Next, f') /\
    (Str msg_successful ∈ printed f f' -> current_state f' = requested f).
Proof.
  intros Hf. exists (next_frame f). split; [apply loop_body_eq, Hf|].
  intros H. apply printed_successful in H.
  destruct (next_frame_frame f) as (_ & _ & _ & _ & _ & _ & _ & ->).
  now rewrite H.
Qed.

Lemma successful_sets_requested_witness :
  exists f', loop_body (chain 0 1) = Done (Next, f') /\
    (Str msg_successful ∈ printed (chain 0 1) f' ->
     current_state f' = 1).
Proof.
  apply (successful_sets_requested (chain 0 1)).
  apply loaded_chain.
Defined.

(** C3. When no entry of the table has the current state as its head, the
    iteration writes its prompt and nothing else, neither the success nor
    the illegal-transition message, and [current_state] is unchanged. *)
Theorem no_entry_from_current_is_silent (f : frame) :
  loaded f ->
  (forall j, transitions_head f !! j <> Some (Some (current_state f))) ->
  exists f', loop_body f = Done (Next, f') /\
    (Str msg_successful ∉ printed f f') /\
    (Str msg_illegal ∉ printed f f') /\
    printed f f' =
      [Str "current state: "; Num (current_state f); Str nl;
       Str "next state: "] /\
    current_state f' = current_state f.
Proof.
  intros Hf Hnone. exists (next_frame f). split; [apply loop_body_eq, Hf|].
  assert (decision f = Silent) as Hd by (apply first_from_none, Hnone).
  rewrite printed_successful, printed_illegal, printed_next_frame.
  destruct (next_frame_frame f) as (_ & _ & _ & _ & _ & _ & _ & ->).
  rewrite Hd. repeat split; discriminate.
Qed.

Lemma no_entry_from_current_is_silent_witness :
  exists f', loop_body (chain 2 0) = Done (Next, f') /\
    (Str msg_successful ∉ printed (chain 2 0) f') /\
    (Str msg_illegal ∉ printed (chain 2 0) f') /\
    printed (chain 2 0) f' =
      [Str "current state: "; Num 2; Str nl; Str "next state: "] /\
    current_state f' = 2.
Proof.
  apply (no_entry_from_current_is_silent (chain 2 0)).
  - apply loaded_chain.
  - intros [|[|j]]; discriminate.
Defined.

(** C4. Only a successful transition changes [current_state]: an iteration
    that does not report "transition successful" (it reports the illegal
    transition, or nothing) ends in the state it started in. *)
Theorem current_state_changed_only_by_success (f : frame) :
  loaded f ->
  exists f', loop_body f = Done (Next, f') /\
    ((Str msg_successful ∉ printed f f') -> current_state f' = current_state f).
Proof.
  intros Hf. exists (next_frame f). split; [apply loop_body_eq, Hf|].
  rewrite printed_successful.
  destruct (next_frame_frame f) as (_ & _ & _ & _ & _ & _ & _ & ->).
  destruct (decision f); intros H; [now destruct H|reflexivity|reflexivity].
Qed.

Lemma current_state_changed_only_by_success_witness :
  exists f', loop_body two_ways_out = Done (Next, f') /\
    ((Str msg_successful ∉ printed two_ways_out f') ->
     current_state f' = 0).
Proof.
  apply (current_state_changed_only_by_success two_ways_out).
  apply loaded_two_ways_out.
Defined.

(** C7. With three states and the table (0,1), (1,2) read in that order and
    0 as the starting state: asking for 1 reports "transition successful"
    and moves to state 1; asking instead for 2 reports the illegal
    transition and stays in state 0. *)
Theorem chain_from_state_0 :
  (exists f0 f1,
     main 0 (typed [3; 2; 0; 1; 1; 2; 0; 1]) = Done (Next, f0) /\
     current_state f0 = 0 /\
     main 1 (typed [3; 2; 0; 1; 1; 2; 0; 1]) = Done (Next, f1) /\
     printed f0 f1 =
       [Str "current state: "; Num 0; Str nl; Str "next state: ";
        Str msg_successful] /\
     current_state f1 = 1) /\
  (exists f0 f1,
     main 0 (typed [3; 2; 0; 1; 1; 2; 0; 2]) = Done (Next, f0) /\
     current_state f0 = 0 /\
     main 1 (typed [3; 2; 0; 1; 1; 2; 0; 2]) = Done (Next, f1) /\
     printed f0 f1 =
       [Str "current state: "; Num 0; Str nl; Str "next state: ";
        Str msg_illegal] /\
     current_state f1 = 0).
Proof.
  split; eexists; eexists;
    (split; [vm_compute; reflexivity|]); (split; [reflexivity|]);
    (split; [vm_compute; reflexivity|]); split; reflexivity.
Qed.

(** C8. Every iteration writes "current state: ", the current state and a
    newline, then the prompt "next state: ", then reads one integer, and
    after that writes the success message, or the illegal-transition
    message, or nothing: never more than one message. *)
Theorem iteration_console (f : frame) :
  loaded f ->
  exists f' m, loop_body f = Done (Next, f') /\
    trace (console f') =
      trace (console f)
      ++ [Write (Str "current state: "); Write (Num (current_state f));
          Write (Str nl); Write (Str "next state: ");
          Read (cin (console f) 0%nat)]
      ++ m /\
    (m = [Write (Str msg_successful)] \/ m = [Write (Str msg_illegal)]
     \/ m = []) /\
    (forall k, cin (console f') k = cin (console f) (S k)).
Proof.
  intros Hf. exists (next_frame f), (message (decision f)).
  split; [apply loop_body_eq, Hf|].
  destruct (next_frame_frame f) as (_ & _ & _ & _ & _ & -> & -> & _).
  repeat split. destruct (decision f); cbn; auto.
Qed.

Lemma iteration_console_witness :
  exists f' m, loop_body two_ways_out = Done (Next, f') /\
    trace (console f') =
      [Write (Str "current state: "); Write (Num 0);
       Write (Str nl); Write (Str "next state: "); Read 2]
      ++ m /\
    (m = [Write (Str msg_successful)] \/ m = [Write (Str msg_illegal)]
     \/ m = []) /\
    (forall k, cin (console f') k = typed [2] (S k)).
Proof.
  apply (iteration_console two_ways_out). apply loaded_two_ways_out.
Defined.

(** C9. The executor loop is never left: whatever the table, the state and
    the input still to come, after any number of iterations the loop is
    still running, the next iteration finishes as well and hands control
    back to the head of the loop. *)
Theorem executor_never_exits (f : frame) :
  loaded f ->
  forall n : nat,
    (exists f' f'', executor n f = Done (Next, f') /\
       loop_body f' = Done (Next, f'') /\
       executor (S n) f = Done (Next, f'')) /\
    (forall g, executor n f <> Done (Break, g)).
Proof.
  intros Hf n.
  destruct (executor_eq n f Hf) as [Hn Hloaded].
  destruct (executor_eq (S n) f Hf) as [HSn _].
  split.
  - exists (after n f), (after (S n) f). rewrite after_S at 1.
    split; [exact Hn|]. split; [apply loop_body_eq, Hloaded|exact HSn].
  - intros g. rewrite Hn. discriminate.
Qed.

Lemma executor_never_exits_witness :
  (exists f' f'', executor 5 two_ways_out = Done (Next, f') /\
     loop_body f' = Done (Next, f'') /\
     executor 6 two_ways_out = Done (Next, f'')) /\
  (forall g, executor 5 two_ways_out <> Done (Break, g)).
Proof.
  apply (executor_never_exits two_ways_out loaded_two_ways_out 5%nat).
Defined.

(** ** The definition phase *)

Section Definition_phase.

Lemma array_set_in_range (a : array) (i v : Z) :
  0 <= i < Z.of_nat (length a) ->
  array_set a i v = Done (<[Z.to_nat i := Some v]> a).
Proof.
  intros Hi. unfold array_set.
  destruct (Z.ltb_spec i 0); [lia|].
  destruct (Z.leb_spec (Z.of_nat (length a)) i); [lia|]. reflexivity.
Qed.

Lemma new_array_nonneg (n : Z) :
  0 <= n -> new_array n = Done (replicate (Z.to_nat n) None).
Proof.
  intros Hn. unfold new_array. destruct (Z.ltb_spec n 0); [lia|reflexivity].
Qed.

(** Lines 16-19 finish and leave [states[k] = k]. *)
Lemma init_states_eq (ns : Z) (st : array) :
  0 <= ns <= INT_MAX -> Z.of_nat (length st) = ns ->
  exists st',
    for_loop (fuel_for ns) (fun _ => ns) init_states_body 0 st = Done st' /\
    Z.of_nat (length st') = ns /\
    forall k, (k < Z.to_nat ns)%nat -> st' !! k = Some (Some (Z.of_nat k)).
Proof.
  intros Hns Hlen.
  apply (for_loop_rule (fun _ => ns) init_states_body ns
    (fun i s => Z.of_nat (length s) = ns /\
       forall k, (k < Z.to_nat i)%nat -> s !! k = Some (Some (Z.of_nat k)))
    (fun s => Z.of_nat (length s) = ns /\
       forall k, (k < Z.to_nat ns)%nat -> s !! k = Some (Some (Z.of_nat k)))
    Hns).
  - reflexivity.
  - intros i s Hi [Hl Hk]. unfold init_states_body.
    rewrite array_set_in_range by lia. cbn.
    exists Next, (<[Z.to_nat i := Some (int_of_size_t i)]> s).
    split; [reflexivity|]. rewrite length_insert. split; [exact Hl|].
    intros k Hlt. destruct (decide (k = Z.to_nat i)) as [->|Hne].
    + rewrite list_lookup_insert_eq by lia.
      rewrite int_of_size_t_small by lia. do 2 f_equal. lia.
    + rewrite list_lookup_insert_ne by congruence. apply Hk. lia.
  - auto.
  - lia.
  - unfold fuel_for. lia.
  - split; [exact Hlen|]. intros k Hk. lia.
Qed.

Lemma table_events_S (c : nat -> Z) (i : nat) :
  table_events c (S i) = table_events c i ++ row_events c i.
Proof.
  unfold table_events. rewrite seq_S, flat_map_app. cbn [flat_map].
  now rewrite app_nil_r.
Qed.

(** Lines 21-25 finish and leave the rows typed at the console in the two
    arrays, in the order they were typed. *)
Lemma read_transitions_eq (nt : Z) (hd tl : array) (w : io) :
  0 <= nt <= INT_MAX ->
  Z.of_nat (length hd) = nt -> Z.of_nat (length tl) = nt ->
  exists hd' tl' w',
    for_loop (fuel_for nt) (fun _ => nt) read_transition_body 0 (hd, tl, w)
      = Done (hd', tl', w') /\
    Z.of_nat (length hd') = nt /\ Z.of_nat (length tl') = nt /\
    (forall k, (k < Z.to_nat nt)%nat ->
       hd' !! k = Some (Some (cin w (2 * k)%nat)) /\
       tl' !! k = Some (Some (cin w (2 * k + 1)%nat))) /\
    (forall k, cin w' k = cin w (2 * Z.to_nat nt + k)%nat) /\
    trace w' = trace w ++ table_events (cin w) (Z.to_nat nt).
Proof.
  intros Hnt Hlh Hlt.
  pose (Inv := fun (i : Z) (s : array * array * io) =>
    let '(h, t, v) := s in
    Z.of_nat (length h) = nt /\ Z.of_nat (length t) = nt /\
    (forall k, (k < Z.to_nat i)%nat ->
       h !! k = Some (Some (cin w (2 * k)%nat)) /\
       t !! k = Some (Some (cin w (2 * k + 1)%nat))) /\
    (forall k, cin v k = cin w (2 * Z.to_nat i + k)%nat) /\
    trace v = trace w ++ table_events (cin w) (Z.to_nat i)).
  destruct (for_loop_rule (fun _ => nt) read_transition_body nt Inv (Inv nt) Hnt)
    with (fuel := fuel_for nt) (i := 0) (s := (hd, tl, w))
    as ([[hd' tl'] w'] & Hrun & Hpost).
  - reflexivity.
  - intros i [[h t] v] Hi (Hh & Ht & Hrows & Hcin & Htrace).
    unfold read_transition_body. cbn [get put cin trace].
    rewrite !array_set_in_range by lia. cbn.
    eexists Next, (_, _, _). split; [reflexivity|].
    cbn. rewrite !length_insert.
    replace (Z.to_nat (i + 1)) with (S (Z.to_nat i)) by lia.
    split; [exact Hh|]. split; [exact Ht|]. split; [|split].
    + intros k Hk. destruct (decide (k = Z.to_nat i)) as [->|Hne].
      * rewrite !list_lookup_insert_eq by lia. rewrite !Hcin.
        split; do 2 f_equal; f_equal; lia.
      * rewrite !list_lookup_insert_ne by congruence. apply Hrows. lia.
    + intros k. rewrite Hcin. f_equal. lia.
    + rewrite table_events_S, Htrace, !Hcin. unfold row_events.
      rewrite size_t_succ_small by lia. rewrite Z2Nat.id by lia.
      rewrite <- !app_assoc. cbn.
      do 6 f_equal. f_equal. f_equal. lia.
  - auto.
  - lia.
  - unfold fuel_for. lia.
  - cbn. split; [exact Hlh|]. split; [exact Hlt|]. split; [|split].
    + intros k Hk. lia.
    + intros k. reflexivity.
    + cbn. now rewrite app_nil_r.
  - exists hd', tl', w'. split; [exact Hrun|]. exact Hpost.
Qed.

Lemma filled_of_lookup (a : array) (n : Z) (v : nat -> Z) :
  Z.of_nat (length a) = n ->
  (forall k, (k < Z.to_nat n)%nat -> a !! k = Some (Some (v k))) ->
  filled a n.
Proof.
  intros Hlen Hcells. split; [exact Hlen|].
  apply Forall_lookup. intros k c Hc.
  rewrite Hcells in Hc by (apply lookup_lt_Some in Hc; lia).
  injection Hc as <-. eauto.
Qed.

(** Lines 7-29 finish whenever the two sizes typed first are sizes of
    arrays, and leave a frame whose table is in place. *)
Lemma definition_phase_eq (w : io) :
  valid_sizes (cin w) ->
  exists f, definition_phase w = Done f /\ loaded f /\
    defined_by (cin w) (trace w) f.
Proof.
  intros [Hns Hnt]. unfold definition_phase. cbn [get put cin trace].
  rewrite !new_array_nonneg by lia. cbn [mbind result_bind].
  destruct (init_states_eq (cin w 0%nat)
              (replicate (Z.to_nat (cin w 0%nat)) None) Hns)
    as (st & -> & _); [rewrite length_replicate; lia|].
  cbn [mbind result_bind].
  match goal with
  | |- context [for_loop _ _ read_transition_body 0 (?hd, ?tl, ?w2)] =>
      destruct (read_transitions_eq (cin w 1%nat) hd tl w2 Hnt)
        as (hd' & tl' & w' & -> & Hlh & Hlt & Hrows & Hcin & Htrace);
        [rewrite length_replicate; lia..|]
  end.
  cbn [mbind result_bind cin trace] in *.
  eexists. split; [reflexivity|]. split.
  - split; cbn; [exact Hnt| |].
    + apply (filled_of_lookup _ _ (fun k => cin w (S (S (2 * k)))) Hlh).
      intros k Hk. apply (Hrows k Hk).
    + apply (filled_of_lookup _ _ (fun k => cin w (S (S (2 * k + 1)))) Hlt).
      intros k Hk. apply (Hrows k Hk).
  - split; cbn [n_states n_transitions transitions_head transitions_tail
                current_state console cin trace].
    + reflexivity.
    + reflexivity.
    + intros k Hk. exact (Hrows k Hk).
    + rewrite Hcin. apply (f_equal (cin w)). lia.
    + intros k. rewrite Hcin. apply (f_equal (cin w)). lia.
    + rewrite Htrace, Hcin, Nat.add_0_r, <- !app_assoc. reflexivity.
Qed.

End Definition_phase.

(** ** The whole session *)

Section Session.

Lemma after_frame (n : nat) : forall f,
  n_states (after n f) = n_states f /\
  n_transitions (after n f) = n_transitions f /\
  transitions_head (after n f) = transitions_head f /\
  transitions_tail (after n f) = transitions_tail f.
Proof.
  induction n as [|n IH]; intros f; [now repeat split|].
  cbn [after]. destruct (IH (next_frame f)) as (-> & -> & -> & ->).
  destruct (next_frame_frame f) as (-> & -> & _ & -> & -> & _).
  now repeat split.
Qed.

(** [main] gets through its definition phase and then runs the executor
    loop from the frame that phase has built. *)
Lemma main_eq (input : nat -> Z) :
  valid_sizes input ->
  exists f0, definition_phase {| cin := input; trace := [] |} = Done f0 /\
    loaded f0 /\ defined_by input [] f0 /\
    forall n, main n input = Done (Next, after n f0) /\ loaded (after n f0).
Proof.
  intros Hsizes.
  destruct (definition_phase_eq {| cin := input; trace := [] |} Hsizes)
    as (f0 & Hdef & Hloaded & Hby).
  exists f0. split; [exact Hdef|]. split; [exact Hloaded|].
  split; [exact Hby|]. intros n. unfold main. rewrite Hdef.
  apply (executor_eq n f0 Hloaded).
Qed.

Lemma main_0_inv (input : nat -> Z) (f0 : frame) :
  main 0 input = Done (Next, f0) ->
  definition_phase {| cin := input; trace := [] |} = Done f0.
Proof.
  unfold main. destruct (definition_phase _) as [f| |]; cbn; congruence.
Qed.

(** A successful transition moves to the tail of some entry of the table. *)
Lemma valid_state_next_frame (f : frame) :
  valid_state f ->
  (forall k t, transitions_tail f !! k = Some (Some t) -> 0 <= t < n_states f) ->
  valid_state (next_frame f).
Proof.
  intros Hcur Htails. unfold valid_state.
  destruct (next_frame_frame f) as (-> & _ & _ & _ & _ & _ & _ & ->).
  destruct (decision f) eqn:Hd; try exact Hcur.
  destruct (first_from_Successful _ _ _ _ Hd) as (k & _ & Hk).
  exact (Htails k _ Hk).
Qed.

Lemma valid_state_after (n : nat) : forall f,
  valid_state f ->
  (forall k t, transitions_tail f !! k = Some (Some t) -> 0 <= t < n_states f) ->
  valid_state (after n f).
Proof.
  induction n as [|n IH]; intros f Hcur Htails; [exact Hcur|].
  cbn [after]. apply IH; [now apply valid_state_next_frame|].
  destruct (next_frame_frame f) as (-> & _ & _ & _ & -> & _). exact Htails.
Qed.

End Session.

(** C5, as the specification states it: [current_state] is a valid state
    identifier at every point of every session.  The program checks neither
    the starting state nor the entries of the table against [n_states]:
    a starting state 7 with three states, and a transition (0,5) taken from
    a valid starting state, both leave [current_state] outside the range. *)
Lemma current_state_may_be_invalid :
  (valid_sizes (typed [3; 0; 7]) /\
   exists f, main 0 (typed [3; 0; 7]) = Done (Next, f) /\
     n_states f = 3 /\ current_state f = 7 /\ ~ valid_state f) /\
  (valid_sizes (typed [3; 1; 0; 5; 0; 5]) /\
   exists f, main 1 (typed [3; 1; 0; 5; 0; 5]) = Done (Next, f) /\
     n_states f = 3 /\ current_state f = 5 /\ ~ valid_state f).
Proof.
  split; (split; [cbv; repeat split; discriminate|]); eexists;
    (split; [vm_compute; reflexivity|]);
    (split; [reflexivity|]); (split; [reflexivity|]);
    unfold valid_state; cbn; lia.
Qed.

(** C5, amended.  When the starting state and the tail of every entry of
    the table are valid state identifiers, [current_state] is a valid state
    identifier after any number of iterations of the executor loop. *)
Theorem current_state_stays_valid (input : nat -> Z) (f0 : frame) :
  valid_sizes input ->
  main 0 input = Done (Next, f0) ->
  valid_state f0 ->
  (forall k t, transitions_tail f0 !! k = Some (Some t) ->
     0 <= t < n_states f0) ->
  forall n, exists f, main n input = Done (Next, f) /\ valid_state f.
Proof.
  intros Hsizes Hmain Hstart Htails n.
  destruct (main_eq input Hsizes) as (f0' & Hdef & _ & _ & Hrun).
  rewrite (main_0_inv _ _ Hmain) in Hdef. injection Hdef as <-.
  exists (after n f0). split; [apply Hrun|].
  now apply valid_state_after.
Qed.

Lemma current_state_stays_valid_witness :
  exists f,
    main 3 (typed [3; 2; 0; 1; 1; 2; 0; 1; 2; 0]) = Done (Next, f) /\
    valid_state f.
Proof.
  eapply (fun f0 Hs Hm Hv Ht =>
            current_state_stays_valid (typed [3; 2; 0; 1; 1; 2; 0; 1; 2; 0])
              f0 Hs Hm Hv Ht 3%nat).
  - cbv. repeat split; discriminate.
  - vm_compute. reflexivity.
  - unfold valid_state. cbn. lia.
  - intros [|[|k]] t H; cbn in H; try discriminate H;
      injection H as <-; cbn; lia.
Defined.

(** C6. Once the definition phase is over the table is never written
    again: the two arrays hold [n_transitions] cells each, and after any
    number of iterations of the executor loop they are the arrays the
    definition phase left. *)
Theorem table_immutable_after_load (input : nat -> Z) :
  valid_sizes input ->
  exists f0, main 0 input = Done (Next, f0) /\
    Z.of_nat (length (transitions_head f0)) = n_transitions f0 /\
    Z.of_nat (length (transitions_tail f0)) = n_transitions f0 /\
    forall n, exists f, main n input = Done (Next, f) /\
      n_transitions f = n_transitions f0 /\
      transitions_head f = transitions_head f0 /\
      transitions_tail f = transitions_tail f0.
Proof.
  intros Hsizes.
  destruct (main_eq input Hsizes) as (f0 & _ & Hloaded & _ & Hrun).
  exists f0. split; [apply (Hrun 0%nat)|].
  split; [apply (loaded_head f0 Hloaded)|].
  split; [apply (loaded_tail f0 Hloaded)|].
  intros n. exists (after n f0). split; [apply Hrun|].
  destruct (after_frame n f0) as (_ & -> & -> & ->). now repeat split.
Qed.

Lemma table_immutable_after_load_witness :
  exists f0, main 0 (typed [3; 2; 0; 1; 1; 2; 0; 1; 2; 0]) = Done (Next, f0) /\
    Z.of_nat (length (transitions_head f0)) = n_transitions f0 /\
    Z.of_nat (length (transitions_tail f0)) = n_transitions f0 /\
    forall n, exists f,
      main n (typed [3; 2; 0; 1; 1; 2; 0; 1; 2; 0]) = Done (Next, f) /\
      n_transitions f = n_transitions f0 /\
      transitions_head f = transitions_head f0 /\
      transitions_tail f = transitions_tail f0.
Proof.
  apply (table_immutable_after_load (typed [3; 2; 0; 1; 1; 2; 0; 1; 2; 0])).
  cbv. repeat split; discriminate.
Defined.

(** ** Two sessions that differ in the number of states *)

Section Two_sessions.

Lemma written_next_frame (f : frame) :
  written (next_frame f) =
    written f
    ++ [Str "current state: "; Num (current_state f); Str nl;
        Str "next state: "]
    ++ match decision f with
       | Successful => [Str msg_successful]
       | Illegal => [Str msg_illegal]
       | Silent => []
       end.
Proof.
  unfold written.
  destruct (next_frame_frame f) as (_ & _ & _ & _ & _ & _ & -> & _).
  rewrite !omap_app. now destruct (decision f).
Qed.

Lemma same_session_next_frame (f1 f2 : frame) :
  same_session f1 f2 -> same_session (next_frame f1) (next_frame f2).
Proof.
  intros [Hn Hh Ht Hc Hcin Hw].
  assert (requested f1 = requested f2) as Hreq by apply Hcin.
  assert (decision f1 = decision f2) as Hd
    by (unfold decision; now rewrite Hh, Ht, Hc, Hreq).
  destruct (next_frame_frame f1) as (_ & En1 & _ & Eh1 & Et1 & Ecin1 & _ & Ec1).
  destruct (next_frame_frame f2) as (_ & En2 & _ & Eh2 & Et2 & Ecin2 & _ & Ec2).
  split.
  - now rewrite En1, En2.
  - now rewrite Eh1, Eh2.
  - now rewrite Et1, Et2.
  - now rewrite Ec1, Ec2, Hd, Hreq, Hc.
  - intros k. rewrite Ecin1, Ecin2. apply Hcin.
  - now rewrite !written_next_frame, Hw, Hc, Hd.
Qed.

Lemma same_session_after (n : nat) : forall f1 f2,
  same_session f1 f2 -> same_session (after n f1) (after n f2).
Proof.
  induction n as [|n IH]; intros f1 f2 H; [exact H|].
  cbn [after]. now apply IH, same_session_next_frame.
Qed.

Lemma table_events_ext (c c' : nat -> Z) (i : nat) :
  (forall k, c k = c' k) -> table_events c i = table_events c' i.
Proof.
  intros Hc. induction i as [|i IH]; [reflexivity|].
  rewrite !table_events_S, IH. unfold row_events. now rewrite !Hc.
Qed.

(** The definition phase run on two inputs that differ in the number of
    states only builds the same session. *)
Lemma same_session_defined (c1 c2 : nat -> Z) (f1 f2 : frame) :
  (forall k, c1 (S k) = c2 (S k)) ->
  loaded f1 -> defined_by c1 [] f1 ->
  loaded f2 -> defined_by c2 [] f2 ->
  same_session f1 f2.
Proof.
  intros Hc [_ [Hlh1 _] [Hlt1 _]] D1 [_ [Hlh2 _] [Hlt2 _]] D2.
  assert (n_transitions f1 = n_transitions f2) as Hn
    by (rewrite (db_transitions _ _ _ D1), (db_transitions _ _ _ D2); apply Hc).
  assert (c1 1%nat = c2 1%nat) as Hnt by apply Hc.
  split.
  - exact Hn.
  - apply list_eq. intros k.
    destruct (decide (k < Z.to_nat (c1 1%nat))%nat) as [Hk|Hk].
    + rewrite (proj1 (db_table _ _ _ D1 k Hk)).
      rewrite Hnt in Hk. rewrite (proj1 (db_table _ _ _ D2 k Hk)).
      do 2 f_equal. apply Hc.
    + rewrite !lookup_ge_None_2; [reflexivity| |].
      * rewrite (db_transitions _ _ _ D2) in Hlh2. lia.
      * rewrite (db_transitions _ _ _ D1) in Hlh1. lia.
  - apply list_eq. intros k.
    destruct (decide (k < Z.to_nat (c1 1%nat))%nat) as [Hk|Hk].
    + rewrite (proj2 (db_table _ _ _ D1 k Hk)).
      rewrite Hnt in Hk. rewrite (proj2 (db_table _ _ _ D2 k Hk)).
      do 2 f_equal. apply Hc.
    + rewrite !lookup_ge_None_2; [reflexivity| |].
      * rewrite (db_transitions _ _ _ D2) in Hlt2. lia.
      * rewrite (db_transitions _ _ _ D1) in Hlt1. lia.
  - rewrite (db_current _ _ _ D1), (db_current _ _ _ D2), Hnt. apply Hc.
  - intros k. rewrite (db_cin _ _ _ D1), (db_cin _ _ _ D2), Hnt. apply Hc.
  - unfold written. rewrite (db_trace _ _ _ D1), (db_trace _ _ _ D2), Hnt.
    rewrite (table_events_ext (fun k => c1 (2 + k)%nat) (fun k => c2 (2 + k)%nat))
      by (intros k; apply Hc).
    change (c1 (2 + 2 * Z.to_nat (c2 1%nat))%nat)
      with (c1 (S (S (2 * Z.to_nat (c2 1%nat))))).
    rewrite Hc. reflexivity.
Qed.

End Two_sessions.

(** C10. What can be observed after the definition phase does not depend on
    [n_states]: two sessions whose inputs differ at most in the number of
    states typed first (same table, same starting state, same requests)
    write the same text and are in the same current state after every number
    of iterations of the executor loop. *)
Theorem n_states_not_observable (input1 input2 : nat -> Z) :
  valid_sizes input1 -> valid_sizes input2 ->
  (forall k, input1 (S k) = input2 (S k)) ->
  forall n, exists f1 f2,
    main n input1 = Done (Next, f1) /\ main n input2 = Done (Next, f2) /\
    written f1 = written f2 /\ current_state f1 = current_state f2.
Proof.
  intros H1 H2 Hsame n.
  destruct (main_eq input1 H1) as (g1 & _ & L1 & D1 & R1).
  destruct (main_eq input2 H2) as (g2 & _ & L2 & D2 & R2).
  exists (after n g1), (after n g2).
  split; [apply R1|]. split; [apply R2|].
  destruct (same_session_after n g1 g2
              (same_session_defined input1 input2 g1 g2 Hsame L1 D1 L2 D2))
    as [_ _ _ Hc _ Hw].
  now split.
Qed.

Lemma n_states_not_observable_witness :
  exists f1 f2,
    main 3 (typed [3; 2; 0; 1; 1; 2; 0; 2; 1; 2]) = Done (Next, f1) /\
    main 3 (typed [9; 2; 0; 1; 1; 2; 0; 2; 1; 2]) = Done (Next, f2) /\
    written f1 = written f2 /\ current_state f1 = current_state f2.
Proof.
  apply (fun H1 H2 Hsame =>
           n_states_not_observable (typed [3; 2; 0; 1; 1; 2; 0; 2; 1; 2])
             (typed [9; 2; 0; 1; 1; 2; 0; 2; 1; 2]) H1 H2 Hsame 3%nat).
  - cbv. repeat split; discriminate.
  - cbv. repeat split; discriminate.
  - intros k. reflexivity.
Defined.

(** ** Further properties of the definition phase *)

Section More_of_the_session.

Lemma first_from_Illegal (current next : Z) : forall heads tails : array,
  first_from current next heads tails = Illegal ->
  exists k t, heads !! k = Some (Some current) /\
    tails !! k = Some (Some t) /\ t <> next.
Proof.
  induction heads as [|c heads IH]; intros tails H; [discriminate|].
  destruct c as [h|]; [|discriminate].
  destruct tails as [|[t|] tails]; try discriminate.
  cbn in H. destruct (Z.eqb_spec h current) as [->|_].
  - destruct (Z.eqb_spec t next) as [->|Hne]; [discriminate|].
    now exists 0%nat, t.
  - destruct (IH _ H) as (k & t' & ? & ? & ?). now exists (S k), t'.
Qed.

Lemma after_trace (n : nat) : forall f,
  exists evs, trace (console (after n f)) = trace (console f) ++ evs.
Proof.
  induction n as [|n IH]; intros f.
  - exists []. now rewrite app_nil_r.
  - cbn [after]. destruct (IH (next_frame f)) as [evs ->].
    destruct (next_frame_frame f) as (_ & _ & _ & _ & _ & _ & -> & _).
    eexists. now rewrite <- app_assoc.
Qed.

Lemma printed_app (f g h : frame) (a b : list event) :
  trace (console g) = trace (console f) ++ a ->
  trace (console h) = trace (console g) ++ b ->
  printed f h = printed f g ++ printed g h.
Proof.
  intros Hg Hh. unfold printed. rewrite Hh, drop_app_length.
  rewrite Hg, <- app_assoc, !drop_app_length. apply omap_app.
Qed.

Lemma printed_after_S (n : nat) (f : frame) :
  printed f (after (S n) f) =
    printed f (next_frame f) ++ printed (next_frame f) (after n (next_frame f)).
Proof.
  destruct (after_trace n (next_frame f)) as [b Hb].
  destruct (next_frame_frame f) as (_ & _ & _ & _ & _ & _ & Ha & _).
  exact (printed_app f (next_frame f) (after (S n) f) _ _ Ha Hb).
Qed.

Lemma written_printed (f g : frame) (a : list event) :
  trace (console g) = trace (console f) ++ a ->
  written g = written f ++ printed f g.
Proof.
  intros Hg. unfold written, printed.
  now rewrite Hg, drop_app_length, omap_app.
Qed.

Lemma after_cin (n : nat) : forall f k,
  cin (console (after n f)) k = cin (console f) (n + k)%nat.
Proof.
  induction n as [|n IH]; intros f k; [reflexivity|].
  cbn [after]. rewrite IH.
  destruct (next_frame_frame f) as (_ & _ & _ & _ & _ & -> & _).
  apply (f_equal (cin (console f))). lia.
Qed.

Lemma after_states (n : nat) : forall f, states (after n f) = states f.
Proof.
  induction n as [|n IH]; intros f; [reflexivity|].
  cbn [after]. rewrite IH.
  now destruct (next_frame_frame f) as (_ & _ & -> & _).
Qed.

(** The [states] array the definition phase leaves. *)
Lemma definition_phase_states (w : io) (f : frame) :
  valid_sizes (cin w) ->
  definition_phase w = Done f ->
  Z.of_nat (length (states f)) = n_states f /\
  forall k, (k < Z.to_nat (n_states f))%nat ->
    states f !! k = Some (Some (Z.of_nat k)).
Proof.
  intros [Hns Hnt]. unfold definition_phase. cbn [get put cin trace].
  rewrite !new_array_nonneg by lia. cbn [mbind result_bind].
  destruct (init_states_eq (cin w 0%nat)
              (replicate (Z.to_nat (cin w 0%nat)) None) Hns)
    as (st & -> & Hlen & Hcells); [rewrite length_replicate; lia|].
  cbn [mbind result_bind].
  match goal with
  | |- context [for_loop _ _ read_transition_body 0 (?hd, ?tl, ?w2)] =>
      destruct (read_transitions_eq (cin w 1%nat) hd tl w2 Hnt)
        as (hd' & tl' & w' & -> & _);
        [rewrite length_replicate; lia..|]
  end.
  cbn [mbind result_bind]. intros H. injection H as <-. now split.
Qed.

(** In a deterministic table an entry leaving the current state is the
    first one that does. *)
Lemma deterministic_first (f : frame) (k : nat) :
  deterministic f ->
  transitions_head f !! k = Some (Some (current_state f)) ->
  forall j, (j < k)%nat ->
    transitions_head f !! j <> Some (Some (current_state f)).
Proof.
  intros Hdet Hk j Hj Hhead. specialize (Hdet j k _ Hhead Hk). lia.
Qed.

(** Iterations started in a state that no entry leaves. *)
Lemma after_without_exit (n : nat) : forall f,
  (forall j, transitions_head f !! j <> Some (Some (current_state f))) ->
  current_state (after n f) = current_state f /\
  printed f (after n f) = concat (replicate n (prompt_text (current_state f))).
Proof.
  induction n as [|n IH]; intros f Hnone.
  - split; [reflexivity|]. unfold printed. now rewrite drop_all.
  - assert (decision f = Silent) as Hd by (apply first_from_none, Hnone).
    assert (current_state (next_frame f) = current_state f) as Hc.
    { destruct (next_frame_frame f) as (_ & _ & _ & _ & _ & _ & _ & ->).
      now rewrite Hd. }
    destruct (IH (next_frame f)) as [IHc IHp].
    { destruct (next_frame_frame f) as (_ & _ & _ & -> & _).
      now rewrite Hc. }
    rewrite printed_after_S, IHp, printed_next_frame, Hd, Hc, app_nil_r.
    cbn [after]. split; [now rewrite IHc|reflexivity].
Qed.

(** The current state is where the walk started or the tail of an entry. *)
Lemma after_start_or_tail (n : nat) : forall f,
  current_state (after n f) = current_state f \/
  exists k, transitions_tail f !! k = Some (Some (current_state (after n f))).
Proof.
  induction n as [|n IH]; intros f; [now left|].
  cbn [after]. destruct (IH (next_frame f)) as [->|[k Hk]].
  - destruct (next_frame_frame f) as (_ & _ & _ & _ & _ & _ & _ & ->).
    destruct (decision f) eqn:Hd; try now left.
    destruct (first_from_Successful _ _ _ _ Hd) as (k & _ & Hk).
    right. now exists k.
  - destruct (next_frame_frame f) as (_ & _ & _ & _ & Et & _).
    rewrite Et in Hk. right. now exists k.
Qed.


(** The decision on a table followed by further entries. *)
Lemma first_from_app (current next : Z) (hs ts : array) :
  forall heads tails : array,
  Forall is_Some heads -> Forall is_Some tails ->
  length heads = length tails ->
  first_from current next (heads ++ hs) (tails ++ ts) =
    match first_from current next heads tails with
    | Silent => first_from current next hs ts
    | o => o
    end.
Proof.
  induction heads as [|c heads IH]; intros tails Hh Ht Hlen.
  - destruct tails; [reflexivity|discriminate].
  - destruct tails as [|d tails]; [discriminate|].
    inversion Hh as [|? ? [h ->] Hh']; subst.
    inversion Ht as [|? ? [t ->] Ht']; subst.
    cbn. destruct (h =? current).
    + now destruct (t =? next).
    + apply IH; try assumption. cbn in Hlen. lia.
Qed.

Lemma first_from_Silent (current next : Z) : forall heads tails : array,
  Forall is_Some heads -> Forall is_Some tails ->
  length heads = length tails ->
  first_from current next heads tails = Silent ->
  Some current ∉ heads.
Proof.
  induction heads as [|c heads IH]; intros tails Hh Ht Hlen Hd.
  - apply not_elem_of_nil.
  - destruct tails as [|d tails]; [discriminate|].
    inversion Hh as [|? ? [h ->] Hh']; subst.
    inversion Ht as [|? ? [t ->] Ht']; subst.
    cbn in Hd. destruct (Z.eqb_spec h current) as [->|Hne].
    + destruct (t =? next); discriminate.
    + apply not_elem_of_cons. split; [congruence|].
      apply (IH tails); try assumption. cbn in Hlen. lia.
Qed.

(** Entries added behind the table whose heads already occur in it never
    decide. *)
Lemma first_from_shadowed (current next : Z) (heads tails hs ts : array) :
  Forall is_Some heads -> Forall is_Some tails ->
  length heads = length tails ->
  (forall h, Some h ∈ hs -> Some h ∈ heads) ->
  first_from current next (heads ++ hs) (tails ++ ts) =
    first_from current next heads tails.
Proof.
  intros Hh Ht Hlen Hcovered. rewrite first_from_app by assumption.
  destruct (first_from current next heads tails) eqn:Hd; try reflexivity.
  apply first_from_none. intros j Hj.
  apply (first_from_Silent _ _ _ _ Hh Ht Hlen Hd).
  apply Hcovered. apply list_elem_of_lookup. now exists j.
Qed.

Lemma after_shadowed (hs ts : array) (n : nat) : forall f g,
  Forall is_Some (transitions_head f) ->
  Forall is_Some (transitions_tail f) ->
  length (transitions_head f) = length (transitions_tail f) ->
  transitions_head g = transitions_head f ++ hs ->
  transitions_tail g = transitions_tail f ++ ts ->
  (forall h, Some h ∈ hs -> Some h ∈ transitions_head f) ->
  current_state g = current_state f ->
  (forall k, cin (console g) k = cin (console f) k) ->
  current_state (after n g) = current_state (after n f) /\
  printed g (after n g) = printed f (after n f).
Proof.
  induction n as [|n IH]; intros f g Hh Ht Hlen Eh Et Hcov Ec Ecin.
  - split; [exact Ec|]. unfold printed. now rewrite !drop_all.
  - assert (requested g = requested f) as Hreq by apply Ecin.
    assert (decision g = decision f) as Hd.
    { unfold decision. rewrite Eh, Et, Ec, Hreq.
      now apply first_from_shadowed. }
    destruct (next_frame_frame f)
      as (_ & _ & _ & Ehf & Etf & Ecinf & _ & Ecf).
    destruct (next_frame_frame g)
      as (_ & _ & _ & Ehg & Etg & Ecing & _ & Ecg).
    destruct (IH (next_frame f) (next_frame g)) as [IHc IHp].
    + now rewrite Ehf.
    + now rewrite Etf.
    + now rewrite Ehf, Etf.
    + now rewrite Ehg, Ehf.
    + now rewrite Etg, Etf.
    + now rewrite Ehf.
    + now rewrite Ecg, Ecf, Hd, Hreq, Ec.
    + intros k. rewrite Ecing, Ecinf. apply Ecin.
    + split; [exact IHc|].
      now rewrite !printed_after_S, IHp, !printed_next_frame, Hd, Ec.
Qed.

End More_of_the_session.

(** X1. The definition phase takes the table as it is typed: with array
    sizes in range it finishes, the two arrays hold the pairs in typed order
    (head first), [current_state] is the value typed after the last pair,
    and no value is checked against [n_states]. *)
Theorem definition_phase_loads_table (input : nat -> Z) :
  valid_sizes input ->
  exists f0, main 0 input = Done (Next, f0) /\
    n_states f0 = input 0%nat /\
    n_transitions f0 = input 1%nat /\
    length (transitions_head f0) = Z.to_nat (input 1%nat) /\
    length (transitions_tail f0) = Z.to_nat (input 1%nat) /\
    (forall k, (k < Z.to_nat (input 1%nat))%nat ->
       transitions_head f0 !! k = Some (Some (input (2 + 2 * k)%nat)) /\
       transitions_tail f0 !! k = Some (Some (input (3 + 2 * k)%nat))) /\
    current_state f0 = input (2 + 2 * Z.to_nat (input 1%nat))%nat.
Proof.
  intros Hsizes.
  destruct (main_eq input Hsizes) as (f0 & _ & [_ [Hlh _] [Hlt _]] & D & Hrun).
  exists f0. split; [apply (Hrun 0%nat)|].
  split; [apply (db_states _ _ _ D)|].
  split; [apply (db_transitions _ _ _ D)|].
  rewrite (db_transitions _ _ _ D) in Hlh, Hlt.
  split; [lia|]. split; [lia|].
  split; [|apply (db_current _ _ _ D)].
  intros k Hk. destruct (db_table _ _ _ D k Hk) as [-> ->].
  split; do 2 f_equal; apply (f_equal input); lia.
Qed.

Lemma definition_phase_loads_table_witness :
  exists f0, main 0 (typed [2; 2; 0; 9; -4; 0; 7]) = Done (Next, f0) /\
    n_states f0 = 2 /\
    n_transitions f0 = 2 /\
    length (transitions_head f0) = 2%nat /\
    length (transitions_tail f0) = 2%nat /\
    (forall k, (k < 2)%nat ->
       transitions_head f0 !! k =
         Some (Some (typed [2; 2; 0; 9; -4; 0; 7] (2 + 2 * k)%nat)) /\
       transitions_tail f0 !! k =
         Some (Some (typed [2; 2; 0; 9; -4; 0; 7] (3 + 2 * k)%nat))) /\
    current_state f0 = 7.
Proof.
  apply (definition_phase_loads_table (typed [2; 2; 0; 9; -4; 0; 7])).
  cbv. repeat split; discriminate.
Defined.

(** X2. The dialogue of the definition phase: the prompt for the two sizes
    and their two reads, then for each row, in order and numbered from 1,
    "transition number k : " and the reads of its head and its tail, then
    "starting state: " and one read.  Nothing else is written or read. *)
Theorem definition_phase_dialogue (input : nat -> Z) :
  valid_sizes input ->
  exists f0, main 0 input = Done (Next, f0) /\
    trace (console f0) =
      [Write (Str "number of state and transitions: ");
       Read (input 0%nat); Read (input 1%nat)]
      ++ flat_map
           (fun k => [Write (Str "transition number ");
                      Write (Num (Z.of_nat k + 1)); Write (Str " : ");
                      Read (input (2 + 2 * k)%nat);
                      Read (input (3 + 2 * k)%nat)])
           (seq 0 (Z.to_nat (input 1%nat)))
      ++ [Write (Str "starting state: ");
          Read (input (2 + 2 * Z.to_nat (input 1%nat))%nat)].
Proof.
  intros Hsizes.
  destruct (main_eq input Hsizes) as (f0 & _ & _ & D & Hrun).
  exists f0. split; [apply (Hrun 0%nat)|].
  rewrite (db_trace _ _ _ D). cbn [app]. do 4 f_equal.
  unfold table_events. apply flat_map_ext. intros k. unfold row_events.
  now replace (2 + (2 * k + 1))%nat with (3 + 2 * k)%nat by lia.
Qed.

Lemma definition_phase_dialogue_witness :
  exists f0, main 0 (typed [3; 2; 0; 1; 1; 2; 0]) = Done (Next, f0) /\
    trace (console f0) =
      [Write (Str "number of state and transitions: "); Read 3; Read 2;
       Write (Str "transition number "); Write (Num 1); Write (Str " : ");
       Read 0; Read 1;
       Write (Str "transition number "); Write (Num 2); Write (Str " : ");
       Read 1; Read 2;
       Write (Str "starting state: "); Read 0].
Proof.
  apply (definition_phase_dialogue (typed [3; 2; 0; 1; 1; 2; 0])).
  cbv. repeat split; discriminate.
Defined.

(** X3. The [states] array: the definition phase fills it with
    [states[k] = k] for every [k] below [n_states], and no iteration of the
    executor loop writes to it or to [n_states]. *)
Theorem states_is_the_identity (input : nat -> Z) :
  valid_sizes input ->
  forall n, exists f, main n input = Done (Next, f) /\
    n_states f = input 0%nat /\
    length (states f) = Z.to_nat (input 0%nat) /\
    forall k, (k < Z.to_nat (input 0%nat))%nat ->
      states f !! k = Some (Some (Z.of_nat k)).
Proof.
  intros Hsizes n.
  destruct (main_eq input Hsizes) as (f0 & Hdef & _ & D & Hrun).
  destruct (definition_phase_states {| cin := input; trace := [] |} f0
              Hsizes Hdef) as [Hlen Hcells].
  exists (after n f0). split; [apply Hrun|].
  destruct (after_frame n f0) as (-> & _). rewrite after_states.
  rewrite (db_states _ _ _ D) in *. split; [reflexivity|].
  split; [lia|exact Hcells].
Qed.

Lemma states_is_the_identity_witness :
  exists f, main 2 (typed [3; 2; 0; 1; 1; 2; 0; 1; 2]) = Done (Next, f) /\
    n_states f = 3 /\
    length (states f) = 3%nat /\
    forall k, (k < 3)%nat -> states f !! k = Some (Some (Z.of_nat k)).
Proof.
  apply (fun H => states_is_the_identity
                    (typed [3; 2; 0; 1; 1; 2; 0; 1; 2]) H 2%nat).
  cbv. repeat split; discriminate.
Defined.

(** ** Further properties of the executor loop *)

(** X4. The messages are sound with respect to the table: "transition
    successful" is written only when some entry goes from the current state
    to the requested state, and the illegal-transition message only when
    some entry leaves the current state for a state other than the
    requested one. *)
Theorem messages_are_sound (f : frame) :
  loaded f ->
  exists f', loop_body f = Done (Next, f') /\
    (Str msg_successful ∈ printed f f' ->
       exists k,
         transitions_head f !! k = Some (Some (current_state f)) /\
         transitions_tail f !! k = Some (Some (requested f))) /\
    (Str msg_illegal ∈ printed f f' ->
       exists k t,
         transitions_head f !! k = Some (Some (current_state f)) /\
         transitions_tail f !! k = Some (Some t) /\ t <> requested f).
Proof.
  intros Hf. exists (next_frame f). split; [apply loop_body_eq, Hf|].
  rewrite printed_successful, printed_illegal. unfold decision. split.
  - apply first_from_Successful.
  - apply first_from_Illegal.
Qed.

Lemma messages_are_sound_witness :
  exists f', loop_body two_ways_out = Done (Next, f') /\
    (Str msg_successful ∈ printed two_ways_out f' ->
       exists k,
         transitions_head two_ways_out !! k = Some (Some 0) /\
         transitions_tail two_ways_out !! k = Some (Some 2)) /\
    (Str msg_illegal ∈ printed two_ways_out f' ->
       exists k t,
         transitions_head two_ways_out !! k = Some (Some 0) /\
         transitions_tail two_ways_out !! k = Some (Some t) /\ t <> 2).
Proof.
  apply (messages_are_sound two_ways_out). apply loaded_two_ways_out.
Defined.

(** X5. On a deterministic table (no two entries leave the same state) the
    executor is also complete: a request for which the table has an entry
    from the current state is granted, the success message is written and
    the illegal-transition message is not. *)
Theorem deterministic_table_grants_entries (f : frame) (k : nat) :
  loaded f ->
  deterministic f ->
  transitions_head f !! k = Some (Some (current_state f)) ->
  transitions_tail f !! k = Some (Some (requested f)) ->
  exists f', loop_body f = Done (Next, f') /\
    Str msg_successful ∈ printed f f' /\
    (Str msg_illegal ∉ printed f f') /\
    current_state f' = requested f.
Proof.
  intros Hf Hdet Hhead Htail.
  exists (next_frame f). split; [apply loop_body_eq, Hf|].
  assert (decision f = Successful) as Hd.
  { unfold decision.
    rewrite (first_from_first _ (requested f) (requested f) k _ _
               (proj2 (loaded_head f Hf)) (proj2 (loaded_tail f Hf))
               Hhead (deterministic_first f k Hdet Hhead) Htail).
    now rewrite Z.eqb_refl. }
  rewrite printed_successful, printed_illegal.
  destruct (next_frame_frame f) as (_ & _ & _ & _ & _ & _ & _ & ->).
  rewrite Hd. repeat split. discriminate.
Qed.

Lemma deterministic_chain (current next : Z) : deterministic (chain current next).
Proof.
  intros [|[|i]] [|[|j]] h Hi Hj; try reflexivity; try discriminate;
    cbn in Hi, Hj; congruence.
Qed.

Lemma deterministic_table_grants_entries_witness :
  exists f', loop_body (chain 1 2) = Done (Next, f') /\
    Str msg_successful ∈ printed (chain 1 2) f' /\
    (Str msg_illegal ∉ printed (chain 1 2) f') /\
    current_state f' = 2.
Proof.
  apply (deterministic_table_grants_entries (chain 1 2) 1).
  - apply loaded_chain.
  - apply deterministic_chain.
  - reflexivity.
  - reflexivity.
Defined.

(** X6. A state that no entry leaves is final: once the machine is in it,
    every later iteration writes its prompt and nothing else, whatever is
    requested, and [current_state] never changes again. *)
Theorem state_without_exit_is_final (f : frame) :
  loaded f ->
  (forall j, transitions_head f !! j <> Some (Some (current_state f))) ->
  forall n, exists f', executor n f = Done (Next, f') /\
    current_state f' = current_state f /\
    printed f f' = concat (replicate n (prompt_text (current_state f))).
Proof.
  intros Hf Hnone n.
  exists (after n f). split; [apply (executor_eq n f Hf)|].
  now apply after_without_exit.
Qed.

Lemma state_without_exit_is_final_witness :
  exists f', executor 3 (chain 2 0) = Done (Next, f') /\
    current_state f' = 2 /\
    printed (chain 2 0) f' = concat (replicate 3 (prompt_text 2)).
Proof.
  apply (fun Hl Hn => state_without_exit_is_final (chain 2 0) Hl Hn 3%nat).
  - apply loaded_chain.
  - intros [|[|j]]; discriminate.
Defined.

(** X7. With an empty table ([n_transitions] is 0) no prompt for a row is
    written, the machine never leaves the starting state, and all the
    program ever writes is its two opening prompts and, per iteration, the
    prompt for the next state. *)
Theorem empty_table_never_moves (input : nat -> Z) :
  0 <= input 0%nat <= INT_MAX ->
  input 1%nat = 0 ->
  forall n, exists f, main n input = Done (Next, f) /\
    current_state f = input 2%nat /\
    written f =
      [Str "number of state and transitions: "; Str "starting state: "]
      ++ concat (replicate n (prompt_text (input 2%nat))).
Proof.
  intros Hns Hnt n.
  assert (valid_sizes input) as Hsizes
    by (split; [exact Hns|rewrite Hnt; unfold INT_MAX; lia]).
  destruct (main_eq input Hsizes) as (f0 & _ & [_ [Hlen _] _] & D & Hrun).
  exists (after n f0). split; [apply Hrun|].
  assert (current_state f0 = input 2%nat) as Hstart
    by (rewrite (db_current _ _ _ D), Hnt; reflexivity).
  destruct (after_without_exit n f0) as [Hc Hp].
  { intros j. rewrite lookup_ge_None_2; [discriminate|].
    rewrite (db_transitions _ _ _ D), Hnt in Hlen. lia. }
  rewrite Hc, Hstart. split; [reflexivity|].
  destruct (after_trace n f0) as [evs Hevs].
  rewrite (written_printed f0 _ evs Hevs), Hp, Hstart. f_equal.
  unfold written. rewrite (db_trace _ _ _ D), Hnt. reflexivity.
Qed.

Lemma empty_table_never_moves_witness :
  exists f, main 2 (typed [3; 0; 1; 2; 0]) = Done (Next, f) /\
    current_state f = 1 /\
    written f =
      [Str "number of state and transitions: "; Str "starting state: "]
      ++ concat (replicate 2 (prompt_text 1)).
Proof.
  apply (fun H0 H1 => empty_table_never_moves (typed [3; 0; 1; 2; 0]) H0 H1 2%nat).
  - cbv. split; discriminate.
  - reflexivity.
Defined.

(** X8. The program consumes its input in order and without gaps: the
    definition phase takes the two sizes, two values per row and the
    starting state, and every iteration of the executor loop takes exactly
    one value, so the request of iteration [n + 1] is the value at position
    [3 + 2 * n_transitions + n] of the input, whatever happened before. *)
Theorem requests_are_read_in_order (input : nat -> Z) :
  valid_sizes input ->
  forall n, exists f, main n input = Done (Next, f) /\
    requested f = input (3 + 2 * Z.to_nat (input 1%nat) + n)%nat /\
    forall k,
      cin (console f) k = input (3 + 2 * Z.to_nat (input 1%nat) + n + k)%nat.
Proof.
  intros Hsizes n.
  destruct (main_eq input Hsizes) as (f0 & _ & _ & D & Hrun).
  exists (after n f0). split; [apply Hrun|].
  assert (forall k, cin (console (after n f0)) k =
            input (3 + 2 * Z.to_nat (input 1%nat) + n + k)%nat) as Hcin.
  { intros k. rewrite after_cin, (db_cin _ _ _ D).
    apply (f_equal input). lia. }
  split; [|exact Hcin].
  unfold requested. rewrite Hcin. apply (f_equal input). lia.
Qed.

Lemma requests_are_read_in_order_witness :
  exists f, main 1 (typed [3; 2; 0; 1; 1; 2; 0; 1; 2]) = Done (Next, f) /\
    requested f = 2 /\
    forall k,
      cin (console f) k = typed [3; 2; 0; 1; 1; 2; 0; 1; 2] (3 + 2 * 2 + 1 + k)%nat.
Proof.
  apply (fun H => requests_are_read_in_order
                    (typed [3; 2; 0; 1; 1; 2; 0; 1; 2]) H 1%nat).
  cbv. repeat split; discriminate.
Defined.

(** X9. The executor loop moves only along the table: after any number of
    iterations [current_state] is the state the loop was entered in or the
    tail of some entry of the table. *)
Theorem current_state_is_start_or_tail (f : frame) :
  loaded f ->
  forall n, exists f', executor n f = Done (Next, f') /\
    (current_state f' = current_state f \/
     exists k, transitions_tail f !! k = Some (Some (current_state f'))).
Proof.
  intros Hf n. exists (after n f). split; [apply (executor_eq n f Hf)|].
  apply after_start_or_tail.
Qed.

Lemma current_state_is_start_or_tail_witness :
  exists f', executor 2 (chain 0 1) = Done (Next, f') /\
    (current_state f' = 0 \/
     exists k, transitions_tail (chain 0 1) !! k = Some (Some (current_state f'))).
Proof.
  apply (current_state_is_start_or_tail (chain 0 1) (loaded_chain 0 1) 2%nat).
Defined.



(** X11. Entries that repeat an earlier head are dead: adding, behind the
    table, entries whose heads all occur in it already changes nothing that
    can be observed.  Started in the same state on the same requests, the
    two sessions write the same text and are in the same state after every
    number of iterations. *)
Theorem repeated_heads_are_dead (f g : frame) (hs ts : array) :
  loaded f -> loaded g ->
  transitions_head g = transitions_head f ++ hs ->
  transitions_tail g = transitions_tail f ++ ts ->
  (forall h, Some h ∈ hs -> Some h ∈ transitions_head f) ->
  current_state g = current_state f ->
  (forall k, cin (console g) k = cin (console f) k) ->
  forall n, exists f' g',
    executor n f = Done (Next, f') /\ executor n g = Done (Next, g') /\
    current_state g' = current_state f' /\
    printed g g' = printed f f'.
Proof.
  intros Hf Hg Eh Et Hcov Ec Ecin n.
  exists (after n f), (after n g).
  split; [apply (executor_eq n f Hf)|].
  split; [apply (executor_eq n g Hg)|].
  destruct Hf as [_ [Hlh Hh] [Hlt Ht]].
  apply (after_shadowed hs ts); try assumption. lia.
Qed.

Lemma repeated_heads_are_dead_witness :
  exists f' g',
    executor 1 (chain 0 2) = Done (Next, f') /\
    executor 1 (chain_shadowed 0 2) = Done (Next, g') /\
    current_state g' = current_state f' /\
    printed (chain_shadowed 0 2) g' = printed (chain 0 2) f'.
Proof.
  apply (fun Hf Hg Eh Et Hcov Ec Ecin =>
           repeated_heads_are_dead (chain 0 2) (chain_shadowed 0 2)
             [Some 0] [Some 2] Hf Hg Eh Et Hcov Ec Ecin 1%nat).
  - apply loaded_chain.
  - split; [cbv; split; discriminate| |];
      (split; [reflexivity | repeat constructor; eexists; reflexivity]).
  - reflexivity.
  - reflexivity.
  - intros h Hh. apply list_elem_of_singleton in Hh. injection Hh as ->.
    apply list_elem_of_here.
  - reflexivity.
  - intros k. reflexivity.
Defined.
